(** * edgeos_config: reconciliation of candidate commands against the live
      configuration

    A shallow embedding of [config_to_commands], [get_candidate],
    [diff_config], [delete_unmanaged] and [run], from
    lib/ansible/modules/network/edgeos/edgeos_config.py, followed by the
    properties of these functions.

    Python text is a sequence of Unicode code points: a string is a
    [list N], one number per code point.  Lists of strings are Rocq lists,
    Python's [set] is stdpp's [gset], and [list(a_set)] is [elements], whose
    order is as unspecified as Python's: no statement below depends on it. *)

From Stdlib Require Import NArith List String Ascii Bool Lia Permutation.
From stdpp Require Import base decidable countable list gmap sets sorting.

Abbreviation str := (list N).

(** ** Text primitives *)

Module Py.

(** A string literal, as the list of its code points. *)
Definition text (s : string) : str := map N_of_ascii (list_ascii_of_string s).

Definition LF : N := 10.
Definition CR : N := 13.
Definition SPACE : N := 32.
Definition QUOTE : N := 39.
Definition LBRACE : N := 123.

(** [s.startswith(prefix)] *)
Fixpoint startswith (s prefix : str) {struct prefix} : bool :=
  match prefix, s with
  | [], _ => true
  | _ :: _, [] => false
  | p :: prefix', c :: s' => (c =? p)%N && startswith s' prefix'
  end.

(** [s.replace(c, '')] for a one-character [c]: every occurrence is dropped. *)
Definition remove_char (c : N) (s : str) : str :=
  List.filter (fun x => negb (x =? c)%N) s.

(** [s.replace(' {', '')]: the non-overlapping occurrences, left to right. *)
Fixpoint remove_open_brace (s : str) : str :=
  match s with
  | [] => []
  | c :: rest =>
      match rest with
      | d :: rest' =>
          if (c =? SPACE)%N && (d =? LBRACE)%N then remove_open_brace rest'
          else c :: remove_open_brace rest
      | [] => [c]
      end
  end.

(** The characters at which [str.splitlines] breaks a line: LF, VT, FF, CR,
    FS, GS, RS, NEL, LINE SEPARATOR and PARAGRAPH SEPARATOR. *)
Definition is_linebreak (c : N) : bool :=
  match c with
  | 10 | 11 | 12 | 13 | 28 | 29 | 30 | 133 | 8232 | 8233 => true
  | _ => false
  end%N.

(** [s.splitlines()]: a line ends at a line break (CR LF counts as one), the
    breaks are dropped, and text after the last break is a line only when it
    is not empty. *)
Fixpoint splitlines (s : str) : list str :=
  match s with
  | [] => []
  | c :: rest =>
      if is_linebreak c then
        [] :: match rest with
              | d :: rest' =>
                  if (c =? CR)%N && (d =? LF)%N then splitlines rest'
                  else splitlines rest
              | [] => []
              end
      else
        match splitlines rest with
        | [] => [[c]]
        | line :: lines => (c :: line) :: lines
        end
  end.

(** [s.split(sep)] for a one-character separator: always at least one field. *)
Fixpoint split (sep : N) (s : str) : list str :=
  match s with
  | [] => [[]]
  | c :: rest =>
      if (c =? sep)%N then [] :: split sep rest
      else match split sep rest with
           | [] => [[c]]
           | field :: fields => (c :: field) :: fields
           end
  end.

(** [sep.join(parts)] for a one-character separator. *)
Fixpoint join (sep : N) (parts : list str) : str :=
  match parts with
  | [] => []
  | [p] => p
  | p :: ps => p ++ sep :: join sep ps
  end.

(** Whether [c] occurs in [s]. *)
Definition has_char (c : N) (s : str) : bool := existsb (fun x => (x =? c)%N) s.

(** [s.rsplit(sep, 1)[0]] for a one-character separator: the text before the
    last separator, the whole of [s] when there is none. *)
Fixpoint rsplit1_head (sep : N) (s : str) : str :=
  match s with
  | [] => []
  | c :: rest =>
      if (c =? sep)%N && negb (has_char sep rest) then []
      else c :: rsplit1_head sep rest
  end.

(** [re.sub('^set ', 'delete ', line)]: without the MULTILINE flag the anchor
    matches at the start of the string only, so at most the leading [set ]
    is rewritten. *)
Definition sub_set_delete (line : str) : str :=
  if startswith line (text "set ") then text "delete " ++ skipn 4 line
  else line.

(** [to_native] on a value that is text already is the identity. *)
Definition to_native (s : str) : str := s.

(** Truth value of a list: empty is false. *)
Definition truthy {A} (l : list A) : bool :=
  match l with [] => false | _ :: _ => true end.

End Py.

Import Py.

(** ** config_to_commands *)

(** Modelled from the spec: the class [NetworkConfig]
    (ansible.module_utils.network.common.config) is not among the sources.
    For input in set format the spec says the text is split on line breaks
    and returned as it is, so the text of the parsed configuration,
    [to_native(candidate)], is its contents. *)
Definition NetworkConfig_to_native (contents : str) : str := contents.

(** The loop marked "this filters out less specific lines": the first
    collected entry that the new item starts with is deleted, then the item
    is appended. *)
Fixpoint delete_first_prefix (item : str) (commands : list str) : list str :=
  match commands with
  | [] => []
  | entry :: commands' =>
      if startswith item entry then commands'
      else entry :: delete_first_prefix item commands'
  end.

Definition collect (commands : list str) (item : str) : list str :=
  delete_first_prefix item commands ++ [item].

Definition filter_less_specific (candidate : list str) : list str :=
  fold_left collect candidate [].

Section Normalizer.

(** Modelled from the spec: [[c.line for c in candidate.items]], the path of
    every item that [NetworkConfig(indent=4, contents=config)] parses out of
    bracketed text.  The parser is not among the sources; it is a parameter
    of the normalizer. *)
Variable item_lines : str -> list str.

Definition config_to_commands (config : str) : list str :=
  let set_format :=
    startswith config (text "set") || startswith config (text "delete") in
  if negb set_format then
    let candidate := item_lines config in
    let commands := filter_less_specific candidate in
    map (fun cmd => text "set " ++ remove_open_brace cmd) commands
  else
    split LF (to_native (NetworkConfig_to_native config)).

(** [get_candidate] when the module is given [lines] and no [src]. *)
Definition get_candidate_lines (lines : list str) : list str :=
  config_to_commands (join LF lines).

End Normalizer.

(** ** diff_config *)

Record buckets := Buckets {
  set_commands : list str;
  delete_commands : list str;
  invalid_commands : list str
}.

(** One turn of the loop over the candidate commands. *)
Definition classify_line (b : buckets) (line : str) : buckets :=
  let line := remove_char QUOTE (to_native line) in
  if startswith line (text "delete ") then
    Buckets (set_commands b) (delete_commands b ++ [line]) (invalid_commands b)
  else if startswith line (text "set ") then
    Buckets (set_commands b ++ [line]) (delete_commands b) (invalid_commands b)
  else
    Buckets (set_commands b) (delete_commands b) (invalid_commands b ++ [line]).

Definition classify (commands : list str) : buckets :=
  fold_left classify_line commands (Buckets [] [] []).

(** "Add back changes where a corresponding delete command exists". *)
Definition add_back_line (delete_commands : list str) (updates : list str)
    (line : str) : list str :=
  let search := sub_set_delete line in
  fold_left
    (fun updates dline =>
       if startswith search dline then updates ++ [line] else updates)
    delete_commands updates.

Definition add_back (set_commands delete_commands updates : list str)
    : list str :=
  fold_left (add_back_line delete_commands) set_commands updates.

(** "Remove if actually a change to config": the unmanaged lines whose
    search key starts some update. *)
Definition collect_matches (updates unmanaged_config : list str) : list str :=
  fold_left
    (fun matches line =>
       let search := rsplit1_head SPACE line in
       if existsb (fun update => startswith update search) updates
       then matches ++ [line] else matches)
    unmanaged_config [].

(** The live configuration as a list of lines, quotes removed. *)
Definition live_lines (config : str) : list str :=
  map (fun c => remove_char QUOTE (to_native c)) (splitlines config).

(** The updates, the unmanaged configuration and the invalid commands. *)
Definition diff_config (commands : list str) (config : str)
    : list str * list str * list str :=
  let config := live_lines config in
  let b := classify commands in
  let updates := if truthy (delete_commands b) then delete_commands b else [] in
  let updates :=
    updates ++ filter (λ line, line ∉ config) (set_commands b) in
  let updates :=
    if truthy (delete_commands b)
    then add_back (set_commands b) (delete_commands b) updates
    else updates in
  let unmanaged_config :=
    elements ((list_to_set config : gset str) ∖ list_to_set (set_commands b)) in
  let matches := collect_matches updates unmanaged_config in
  let unmanaged_config := filter (λ line, line ∉ matches) unmanaged_config in
  (updates, unmanaged_config, invalid_commands b).

Definition updates_of (r : list str * list str * list str) : list str := r.1.1.
Definition unmanaged_of (r : list str * list str * list str) : list str := r.1.2.
Definition invalid_of (r : list str * list str * list str) : list str := r.2.

(** ** delete_unmanaged and the command list of run *)

(** The list [updates] after the in-place appends. *)
Definition delete_unmanaged (updates unmanaged : list str) : list str :=
  fold_left (fun updates line => updates ++ [sub_set_delete line])
            unmanaged updates.

(** The list [updates] that [run] hands to [load_config] and reports as
    [result['commands']], from the candidate, the live configuration and the
    module parameter [delete_unmanaged]. *)
Definition run_updates (delete_unmanaged_param : bool)
    (candidate : list str) (config : str) : list str :=
  let '(updates, unmanaged_config, _) := diff_config candidate config in
  if truthy unmanaged_config && delete_unmanaged_param
  then delete_unmanaged updates unmanaged_config
  else updates.

(** ** The three kinds of line *)

(** A candidate line as the classification loop sees it: quotes removed. *)
Definition normalize (line : str) : str := remove_char QUOTE (to_native line).

Definition is_delete (line : str) : bool := startswith line (text "delete ").
Definition is_set (line : str) : bool := startswith line (text "set ").
Definition is_invalid (line : str) : bool := negb (is_delete line) && negb (is_set line).

(** The commands that the add-back loops append, in the order of the loops:
    one copy of a set command per delete command that starts its
    delete form. *)
Definition restored (set_commands delete_commands : list str) : list str :=
  flat_map
    (fun line =>
       flat_map
         (fun dline =>
            if startswith (sub_set_delete line) dline then [line] else [])
         delete_commands)
    set_commands.

(** Every delete statement of [l] stands before every set statement of [l]. *)
Definition deletes_before_sets (l : list str) : Prop :=
  ∀ i j s d,
    l !! i = Some s → l !! j = Some d →
    is_set s = true → is_delete d = true → j < i.

(** A line of text holds no line break. *)
Definition single_line (s : str) : Prop :=
  Forall (λ c, is_linebreak c = false) s.

(** ** get_candidate *)

(** A value that [get_candidate] handles: [None], text, or a list of lines. *)
Inductive value := VNone | VText (s : str) | VLines (l : list str).

Definition value_truthy (v : value) : bool :=
  match v with
  | VNone => false
  | VText s => truthy s
  | VLines l => truthy l
  end.

(** [a or b] *)
Definition value_or (a b : value) : value := if value_truthy a then a else b.

(** [chr.join(contents)]: over a list its lines are joined, over text its
    characters are; [None] cannot be iterated. *)
Definition value_join (sep : N) (contents : value) : option value :=
  match contents with
  | VNone => None
  | VText s => Some (VText (join sep (map (fun c => [c]) s)))
  | VLines l => Some (VText (join sep l))
  end.

Section Candidate.

(** The parser of bracketed text, as in the normalizer. *)
Variable item_lines : str -> list str.

(** [get_candidate] from the module parameters [src] and [lines].  The
    result is [None] when the call raises: [config_to_commands] begins with
    [config.startswith], which only text has. *)
Definition get_candidate (src : option str) (lines : option (list str))
    : option (list str) :=
  let src := from_option VText VNone src in
  let lines := from_option VLines VNone lines in
  let contents := value_or src lines in
  let contents :=
    if value_truthy lines then value_join LF contents else Some contents in
  match contents with
  | Some (VText config) => Some (config_to_commands item_lines config)
  | _ => None
  end.

End Candidate.

(** ** run *)

(** Text order: by code point, a proper prefix first. *)
Fixpoint str_le (a b : str) : bool :=
  match a, b with
  | [], _ => true
  | _ :: _, [] => false
  | x :: a', y :: b' =>
      if (x <? y)%N then true
      else if (x =? y)%N then str_le a' b' else false
  end.

Definition str_ord (a b : str) : Prop := str_le a b = true.

#[global] Instance str_ord_dec (a b : str) : Decision (str_ord a b) :=
  decide (str_le a b = true).

(** [sorted(l)]: the ascending rearrangement of [l]; there is only one, the
    order being total and antisymmetric. *)
Definition sorted (l : list str) : list str := merge_sort str_ord l.

(** The module parameters that [run] reads, and the check mode. *)
Record module_params := ModuleParams {
  param_src : option str;
  param_lines : option (list str);
  param_config : option str;
  param_comment : str;
  param_delete_unmanaged : bool;
  check_mode : bool
}.

(** The entries of the result dictionary that [run] reads or writes. *)
Record result := Result {
  result_commands : list str;
  result_unmanaged : list str;
  result_invalid : list str;
  result_changed : bool;
  result_warnings : list str
}.

(** A call of [load_config(module, commands, commit=, comment=)]. *)
Inductive device_call :=
  load_config (commands : list str) (commit : bool) (comment : str).

Definition unmanaged_warning : str :=
  text "Some configuration commands were unmanaged, review unmanaged list".

Definition invalid_warning : str :=
  text "Some configuration commands were invalid, review invalid list".

(** [module.params['config'] or get_config(module)], [device] being what
    [get_config] returns when it is asked. *)
Definition active_config (p : module_params) (device : str) : str :=
  match param_config p with
  | Some c => if truthy c then c else device
  | None => device
  end.

(** [run] from the call of [diff_config] on: the result on exit and the
    calls of [load_config]; [changed] and [warnings] are the entries of
    [result] on entry. *)
Definition run_candidate (p : module_params) (config : str)
    (changed : bool) (warnings : list str) (candidate : list str)
    : result * list device_call :=
  let '(updates, unmanaged_config, invalid_commands) :=
    diff_config candidate config in
  let updates :=
    if truthy unmanaged_config && param_delete_unmanaged p
    then delete_unmanaged updates unmanaged_config
    else updates in
  let unmanaged := sorted unmanaged_config in
  let invalid := sorted invalid_commands in
  let commit := negb (check_mode p) in
  let comment := param_comment p in
  let calls :=
    if truthy updates then [load_config updates commit comment] else [] in
  let changed := if truthy updates then true else changed in
  let warnings :=
    if truthy unmanaged then warnings ++ [unmanaged_warning] else warnings in
  let warnings :=
    if truthy invalid then warnings ++ [invalid_warning] else warnings in
  (Result updates unmanaged invalid changed warnings, calls).

Section Run.

Variable item_lines : str -> list str.

(** [run(module, result)]: [None] when [get_candidate] raises. *)
Definition run (p : module_params) (device : str)
    (changed : bool) (warnings : list str)
    : option (result * list device_call) :=
  let config := active_config p device in
  match get_candidate item_lines (param_src p) (param_lines p) with
  | None => None
  | Some candidate => Some (run_candidate p config changed warnings candidate)
  end.

End Run.

(** ** Shapes of item lists *)

(** Each item starts with the item before it. *)
Fixpoint nested_chain (items : list str) : Prop :=
  match items with
  | [] => True
  | a :: rest =>
      match rest with
      | [] => True
      | b :: _ => startswith b a = true ∧ nested_chain rest
      end
  end.

(** No item starts with an item before it. *)
Definition prefix_free (items : list str) : Prop :=
  ∀ i j a b,
    i < j → items !! i = Some a → items !! j = Some b →
    startswith b a = false.

(** The text holds no single quote. *)
Definition quote_free (s : str) : Prop := QUOTE ∉ s.

(** * Properties *)

(** Closed goals about concrete texts are settled by evaluation. *)
Ltac evaluate :=
  first [ by vm_compute | apply (bool_decide_unpack _); by vm_compute ].

(** ** Text primitives *)

Lemma startswith_spec (s p : str) :
  startswith s p = true ↔ ∃ r, s = p ++ r.
Proof.
  revert s. induction p as [|x p IH]; intros s; simpl.
  - split; [intros _; by exists s | reflexivity].
  - destruct s as [|c s].
    + split; [discriminate | intros [r Hr]; discriminate].
    + rewrite andb_true_iff, N.eqb_eq, IH. split.
      * intros [-> [r ->]]. by exists r.
      * intros [r Hr]. injection Hr as -> ->. eauto.
Qed.

Lemma startswith_app (p r : str) : startswith (p ++ r) p = true.
Proof. apply startswith_spec. by exists r. Qed.

Lemma startswith_false_length (s p : str) :
  length s < length p → startswith s p = false.
Proof.
  intros Hlen. destruct (startswith s p) eqn:E; [|done].
  apply startswith_spec in E as [r ->]. rewrite length_app in Hlen. lia.
Qed.

Lemma is_set_not_delete (l : str) : is_set l = true → is_delete l = false.
Proof.
  unfold is_set, is_delete. intros [r ->]%startswith_spec. reflexivity.
Qed.

Lemma remove_char_app (c : N) (s t : str) :
  remove_char c (s ++ t) = remove_char c s ++ remove_char c t.
Proof. apply List.filter_app. Qed.

Lemma normalize_is_set (c : str) : is_set c = true → is_set (normalize c) = true.
Proof.
  unfold is_set, normalize, to_native. intros [r ->]%startswith_spec.
  rewrite remove_char_app. apply startswith_app.
Qed.

Lemma normalize_is_delete (c : str) :
  is_delete c = true → is_delete (normalize c) = true.
Proof.
  unfold is_delete, normalize, to_native. intros [r ->]%startswith_spec.
  rewrite remove_char_app. apply startswith_app.
Qed.

(** ** The loops as list operations *)

Lemma classify_line_kind (b : buckets) (c : str) :
  classify_line b c =
    Buckets (set_commands b ++ List.filter is_set [normalize c])
            (delete_commands b ++ List.filter is_delete [normalize c])
            (invalid_commands b ++ List.filter is_invalid [normalize c]).
Proof.
  unfold classify_line, is_invalid. fold (normalize c).
  fold (is_delete (normalize c)) (is_set (normalize c)). simpl.
  destruct (is_delete (normalize c)) eqn:Hd.
  - destruct (is_set (normalize c)) eqn:Hs.
    + apply is_set_not_delete in Hs. congruence.
    + simpl. by rewrite !app_nil_r.
  - destruct (is_set (normalize c)); simpl; by rewrite !app_nil_r.
Qed.

Lemma classify_from (commands : list str) (b : buckets) :
  fold_left classify_line commands b =
    Buckets
      (set_commands b ++ List.filter is_set (map normalize commands))
      (delete_commands b ++ List.filter is_delete (map normalize commands))
      (invalid_commands b ++ List.filter is_invalid (map normalize commands)).
Proof.
  revert b. induction commands as [|c commands IH]; intros b.
  - simpl. rewrite !app_nil_r. by destruct b.
  - change (fold_left classify_line (c :: commands) b)
      with (fold_left classify_line commands (classify_line b c)).
    rewrite IH, classify_line_kind. cbn [set_commands delete_commands invalid_commands].
    change (map normalize (c :: commands))
      with ([normalize c] ++ map normalize commands).
    by rewrite !List.filter_app, <- !app_assoc.
Qed.

Lemma classify_filter (commands : list str) :
  classify commands =
    Buckets (List.filter is_set (map normalize commands))
            (List.filter is_delete (map normalize commands))
            (List.filter is_invalid (map normalize commands)).
Proof. unfold classify. by rewrite classify_from. Qed.

Lemma add_back_line_app (deletes updates : list str) (line : str) :
  add_back_line deletes updates line =
    updates ++ flat_map
      (fun dline =>
         if startswith (sub_set_delete line) dline then [line] else [])
      deletes.
Proof.
  unfold add_back_line. revert updates.
  induction deletes as [|d deletes IH]; intros updates; simpl.
  - by rewrite app_nil_r.
  - rewrite IH. destruct (startswith _ d); simpl.
    + by rewrite <- app_assoc.
    + done.
Qed.

Lemma add_back_app (sets deletes updates : list str) :
  add_back sets deletes updates = updates ++ restored sets deletes.
Proof.
  unfold add_back, restored. revert updates.
  induction sets as [|s sets IH]; intros updates; simpl.
  - by rewrite app_nil_r.
  - by rewrite IH, add_back_line_app, <- app_assoc.
Qed.

Lemma restored_no_deletes (sets : list str) : restored sets [] = [].
Proof. unfold restored. induction sets as [|s sets IH]; simpl; done. Qed.

Lemma elem_of_restored (sets deletes : list str) (line : str) :
  line ∈ restored sets deletes ↔
    line ∈ sets ∧
    ∃ dline, dline ∈ deletes ∧ startswith (sub_set_delete line) dline = true.
Proof.
  unfold restored. rewrite list_elem_of_In, in_flat_map. split.
  - intros (s & Hs & Hin). apply in_flat_map in Hin as (d & Hd & Hin).
    destruct (startswith (sub_set_delete s) d) eqn:E; [|by destruct Hin].
    destruct Hin as [->|[]]. rewrite list_elem_of_In. split; [done|].
    exists d. by rewrite list_elem_of_In.
  - intros (Hs & d & Hd & E). exists line. rewrite <- list_elem_of_In.
    split; [done|]. apply in_flat_map. exists d.
    rewrite <- list_elem_of_In. split; [done|]. rewrite E. by left.
Qed.

Lemma collect_matches_filter (updates unmanaged : list str) :
  collect_matches updates unmanaged =
    List.filter
      (fun line =>
         existsb (fun update => startswith update (rsplit1_head SPACE line))
                 updates)
      unmanaged.
Proof.
  unfold collect_matches.
  set (hit := fun line => existsb _ updates).
  assert (∀ acc, fold_left
            (fun matches line => if hit line then matches ++ [line] else matches)
            unmanaged acc = acc ++ List.filter hit unmanaged) as H.
  { induction unmanaged as [|l unmanaged IH]; intros acc; simpl.
    - by rewrite app_nil_r.
    - rewrite IH. destruct (hit l); [by rewrite <- app_assoc | done]. }
  apply (H []).
Qed.

Lemma delete_unmanaged_app (updates unmanaged : list str) :
  delete_unmanaged updates unmanaged = updates ++ map sub_set_delete unmanaged.
Proof.
  unfold delete_unmanaged. revert updates.
  induction unmanaged as [|l unmanaged IH]; intros updates; simpl.
  - by rewrite app_nil_r.
  - by rewrite IH, <- app_assoc.
Qed.

(** ** The result of diff_config, field by field *)

Lemma updates_of_diff_config (commands : list str) (config : str) :
  updates_of (diff_config commands config) =
    delete_commands (classify commands)
    ++ filter (λ line, line ∉ live_lines config) (set_commands (classify commands))
    ++ restored (set_commands (classify commands))
                (delete_commands (classify commands)).
Proof.
  unfold updates_of, diff_config. cbn [fst].
  destruct (delete_commands (classify commands)) as [|d ds] eqn:E.
  - cbn [truthy]. by rewrite restored_no_deletes, app_nil_r.
  - cbn [truthy]. by rewrite add_back_app, <- app_assoc.
Qed.

Lemma invalid_of_diff_config (commands : list str) (config : str) :
  invalid_of (diff_config commands config) = invalid_commands (classify commands).
Proof. reflexivity. Qed.

Lemma elem_of_unmanaged (commands : list str) (config : str) (line : str) :
  line ∈ unmanaged_of (diff_config commands config) ↔
    line ∈ live_lines config
    ∧ (line ∉ set_commands (classify commands))
    ∧ (existsb (fun update => startswith update (rsplit1_head SPACE line))
               (updates_of (diff_config commands config)) = false).
Proof.
  unfold unmanaged_of, updates_of, diff_config. cbn [fst snd].
  set (updates := if truthy _ then add_back _ _ _ else _).
  rewrite list_elem_of_filter, elem_of_elements, elem_of_difference,
    !elem_of_list_to_set, collect_matches_filter.
  rewrite (list_elem_of_In _ line), filter_In, <- list_elem_of_In,
    elem_of_elements, elem_of_difference, !elem_of_list_to_set.
  destruct (existsb _ updates); split.
  - intros [Hno Hin]. destruct Hno. by split.
  - intros (_ & _ & ?). discriminate.
  - intros [_ [Hin Hout]]. by repeat split.
  - intros (Hin & Hout & _). split; [|by split].
    intros [_ ?]. discriminate.
Qed.

Lemma unmanaged_subsumed (commands : list str) (config : str)
    (line update : str) :
  update ∈ updates_of (diff_config commands config) →
  startswith update (rsplit1_head SPACE line) = true →
  line ∉ unmanaged_of (diff_config commands config).
Proof.
  intros Hin Hstart (_ & _ & Hnone)%elem_of_unmanaged.
  assert (existsb (fun u => startswith u (rsplit1_head SPACE line))
            (updates_of (diff_config commands config)) = true) as Hsome.
  { apply existsb_exists. exists update. by rewrite <- list_elem_of_In. }
  congruence.
Qed.

(** ** Kinds of the lines of a result *)

Lemma Forall_filter_bool (f : str → bool) (l : list str) :
  Forall (λ x, f x = true) (List.filter f l).
Proof.
  apply Forall_forall. intros x Hx%list_elem_of_In. by apply filter_In in Hx as [_ ?].
Qed.

Lemma filter_bool_all (f : str → bool) (l : list str) :
  Forall (λ x, f x = true) l → List.filter f l = l.
Proof. induction 1 as [|x l Hx _ IH]; simpl; [done|]. by rewrite Hx, IH. Qed.

Lemma filter_bool_none (f : str → bool) (l : list str) :
  Forall (λ x, f x = false) l → List.filter f l = [].
Proof. induction 1 as [|x l Hx _ IH]; simpl; [done|]. by rewrite Hx. Qed.

Lemma kinds_exclusive (line : str) :
  (is_delete line = true ∧ is_set line = false ∧ is_invalid line = false)
  ∨ (is_delete line = false ∧ is_set line = true ∧ is_invalid line = false)
  ∨ (is_delete line = false ∧ is_set line = false ∧ is_invalid line = true).
Proof.
  unfold is_invalid. destruct (is_set line) eqn:Hs.
  - rewrite (is_set_not_delete _ Hs). tauto.
  - destruct (is_delete line); simpl; tauto.
Qed.

Lemma kinds_partition (lines : list str) :
  lines ≡ₚ List.filter is_set lines ++ List.filter is_delete lines
           ++ List.filter is_invalid lines.
Proof.
  induction lines as [|l lines IH]; simpl; [done|].
  destruct (kinds_exclusive l)
    as [(-> & -> & ->)|[(-> & -> & ->)|(-> & -> & ->)]]; simpl.
  - rewrite <- Permutation_middle. by constructor.
  - by constructor.
  - rewrite app_assoc, <- Permutation_middle, <- app_assoc. by constructor.
Qed.

Lemma restored_sets (sets deletes : list str) :
  Forall (λ l, is_set l = true) sets →
  Forall (λ l, is_set l = true) (restored sets deletes).
Proof.
  rewrite !Forall_forall. intros Hsets l [Hl _]%elem_of_restored. auto.
Qed.

Lemma deletes_before_sets_app (ds ss : list str) :
  Forall (λ l, is_delete l = true) ds →
  Forall (λ l, is_set l = true) ss →
  deletes_before_sets (ds ++ ss).
Proof.
  rewrite !Forall_forall. intros Hds Hss i j s d Hi Hj Hs Hd.
  assert (length ds ≤ i) as Hlen.
  { destruct (decide (i < length ds)) as [Hlt|]; [|lia].
    rewrite lookup_app_l in Hi by done.
    apply list_elem_of_lookup_2, Hds in Hi.
    apply is_set_not_delete in Hs. congruence. }
  destruct (decide (j < length ds)) as [|Hge]; [lia|].
  rewrite lookup_app_r in Hj by lia.
  apply list_elem_of_lookup_2, Hss, is_set_not_delete in Hj. congruence.
Qed.

Lemma updates_shape (commands : list str) (config : str) :
  ∃ sets,
    updates_of (diff_config commands config) =
      List.filter is_delete (map normalize commands) ++ sets
    ∧ Forall (λ l, is_set l = true) sets.
Proof.
  rewrite updates_of_diff_config, classify_filter.
  cbn [set_commands delete_commands]. eexists. split; [reflexivity|].
  apply Forall_app. split.
  - apply Forall_forall. intros l [_ Hl]%list_elem_of_filter. revert l Hl.
    apply Forall_forall, Forall_filter_bool.
  - apply restored_sets, Forall_filter_bool.
Qed.

(** ** Lines of a text *)

Lemma splitlines_break (line rest : str) :
  single_line line → splitlines (line ++ LF :: rest) = line :: splitlines rest.
Proof.
  induction 1 as [|c line Hc _ IH]; simpl.
  - by destruct rest.
  - by rewrite Hc, IH.
Qed.

Lemma splitlines_single (line : str) :
  single_line line → line ≠ [] → splitlines line = [line].
Proof.
  induction 1 as [|c line Hc Hline IH]; intros Hne; [done|].
  simpl. rewrite Hc. destruct line as [|d line]; [done|].
  by rewrite IH.
Qed.

Lemma splitlines_join (lines : list str) :
  Forall single_line lines → Forall (λ l, l ≠ []) lines →
  splitlines (join LF lines) = lines.
Proof.
  induction 1 as [|l lines Hl _ IH]; intros Hne; [done|].
  apply Forall_cons in Hne as [Hl' Hne].
  destruct lines as [|l2 lines]; [by apply splitlines_single|].
  change (join LF (l :: l2 :: lines)) with (l ++ LF :: join LF (l2 :: lines)).
  by rewrite splitlines_break, IH.
Qed.

(** ** Candidates that are all live *)

Lemma nothing_to_update (commands : list str) (config : str) :
  Forall (λ c, is_set (normalize c) = true ∧ normalize c ∈ live_lines config)
         commands →
  updates_of (diff_config commands config) = []
  ∧ invalid_of (diff_config commands config) = [].
Proof.
  intros Hall.
  assert (Forall (λ l, is_set l = true) (map normalize commands)) as Hset.
  { apply Forall_fmap. eapply Forall_impl; [exact Hall|]. by intros c [? _]. }
  assert (Forall (λ l, l ∈ live_lines config) (map normalize commands)) as Hlive.
  { apply Forall_fmap. eapply Forall_impl; [exact Hall|]. by intros c [_ ?]. }
  rewrite updates_of_diff_config, invalid_of_diff_config, classify_filter.
  cbn [set_commands delete_commands invalid_commands].
  rewrite (filter_bool_all is_set) by done.
  rewrite (filter_bool_none is_delete), (filter_bool_none is_invalid).
  - rewrite restored_no_deletes. split; [|done]. simpl. rewrite app_nil_r.
    induction Hlive as [|l ls Hl _ IH]; [done|].
    rewrite filter_cons_False by (intros Hn; by apply Hn). apply IH.
    by apply Forall_cons in Hset as [_ ?].
  - eapply Forall_impl; [exact Hset|]. intros l Hl. simpl in Hl.
    unfold is_invalid. by rewrite Hl, andb_false_r.
  - eapply Forall_impl; [exact Hset|]. intros l Hl. by apply is_set_not_delete.
Qed.

(** * The claims *)

(** C1. Idempotence of reconciliation: for every live configuration text
    [L] whose lines are all set statements, [diff_config] called with
    those lines as the candidate and [L] as the live configuration returns
    no update and no invalid command.  The lines of [L] are the ones
    [diff_config] itself reads from it. *)
Theorem idempotence (L : str) :
  Forall (λ c, is_set c = true) (splitlines L) →
  updates_of (diff_config (splitlines L) L) = []
  ∧ invalid_of (diff_config (splitlines L) L) = [].
Proof.
  intros Hset. apply nothing_to_update.
  apply Forall_forall. intros c Hc. split.
  - apply normalize_is_set. revert c Hc. by apply Forall_forall.
  - unfold live_lines. fold normalize. by apply list_elem_of_fmap_2.
Qed.

Lemma idempotence_witness :
  updates_of
    (diff_config
       (splitlines (join LF [text "set system host-name 'edge'"; text "set service lldp"]))
       (join LF [text "set system host-name 'edge'"; text "set service lldp"])) = []
  ∧ invalid_of
      (diff_config
         (splitlines (join LF [text "set system host-name 'edge'"; text "set service lldp"]))
         (join LF [text "set system host-name 'edge'"; text "set service lldp"])) = [].
Proof.
  apply (idempotence (join LF [text "set system host-name 'edge'"; text "set service lldp"])).
  vm_compute. repeat constructor.
Defined.

(** The same for a candidate given as a list of statements and joined with
    newlines into the live text, each statement being one line of text. *)
Lemma idempotence_joined (statements : list str) :
  Forall (λ c, is_set c = true) statements →
  Forall single_line statements →
  updates_of (diff_config statements (join LF statements)) = []
  ∧ invalid_of (diff_config statements (join LF statements)) = [].
Proof.
  intros Hset Hline.
  assert (splitlines (join LF statements) = statements) as Hlines.
  { apply splitlines_join; [done|].
    eapply Forall_impl; [exact Hset|]. by intros c Hc ->. }
  apply nothing_to_update, Forall_forall. intros c Hc. split.
  - apply normalize_is_set. revert c Hc. by apply Forall_forall.
  - unfold live_lines. fold normalize. rewrite Hlines.
    by apply list_elem_of_fmap_2.
Qed.

(** C2, as stated, fails: with live line
    [set service dhcp-server shared-network-name LAN], no candidate set
    command and the update [delete service dhcp-server], the live line is
    returned as unmanaged. *)
Lemma subsumption_counterexample :
  diff_config [text "delete service dhcp-server"]
              (text "set service dhcp-server shared-network-name LAN")
  = ([text "delete service dhcp-server"],
     [text "set service dhcp-server shared-network-name LAN"],
     [])
  ∧ text "set service dhcp-server shared-network-name LAN"
      ∈ unmanaged_of
          (diff_config [text "delete service dhcp-server"]
             (text "set service dhcp-server shared-network-name LAN")).
Proof. split; evaluate. Qed.

(** C2, amended. The live line
    [set service dhcp-server shared-network-name LAN] is left out of the
    unmanaged list whenever some entry of the updates starts with its search
    key, the line without its last token:
    [set service dhcp-server shared-network-name]. *)
Theorem subsumption_by_search_key (commands : list str) (config update : str) :
  update ∈ updates_of (diff_config commands config) →
  startswith update (text "set service dhcp-server shared-network-name") = true →
  text "set service dhcp-server shared-network-name LAN"
    ∉ unmanaged_of (diff_config commands config).
Proof.
  intros Hin Hstart. by apply (unmanaged_subsumed commands config _ update).
Qed.

Lemma subsumption_by_search_key_witness :
  text "set service dhcp-server shared-network-name LAN"
    ∉ unmanaged_of
        (diff_config [text "set service dhcp-server shared-network-name WAN"]
           (text "set service dhcp-server shared-network-name LAN")).
Proof.
  apply (subsumption_by_search_key
           [text "set service dhcp-server shared-network-name WAN"]
           (text "set service dhcp-server shared-network-name LAN")
           (text "set service dhcp-server shared-network-name WAN")).
  - apply (bool_decide_unpack _). by vm_compute.
  - by vm_compute.
Defined.

(** C3, as stated, fails: the delete form [delete interfaces eth0] of the
    candidate set command is a prefix of the candidate delete command
    [delete interfaces eth0 address], and the set command, already live, is
    not among the updates. *)
Lemma restoration_counterexample :
  startswith (text "delete interfaces eth0 address")
             (sub_set_delete (text "set interfaces eth0")) = true
  ∧ diff_config [text "delete interfaces eth0 address"; text "set interfaces eth0"]
                (text "set interfaces eth0")
    = ([text "delete interfaces eth0 address"], [], [])
  ∧ text "set interfaces eth0"
      ∉ updates_of
          (diff_config
             [text "delete interfaces eth0 address"; text "set interfaces eth0"]
             (text "set interfaces eth0")).
Proof. repeat split; evaluate. Qed.

(** C3, amended. The updates are the delete commands, then the set commands
    that are not live, then the restored set commands; a candidate set
    command is among the restored ones, live or not, whenever some candidate
    delete command is a prefix of its delete form (its leading [set ]
    replaced by [delete ]). *)
Theorem restoration_rule (commands : list str) (config c d : str) :
  c ∈ commands → is_set (normalize c) = true →
  d ∈ commands → is_delete (normalize d) = true →
  startswith (sub_set_delete (normalize c)) (normalize d) = true →
  updates_of (diff_config commands config) =
    delete_commands (classify commands)
    ++ filter (λ line, line ∉ live_lines config) (set_commands (classify commands))
    ++ restored (set_commands (classify commands))
                (delete_commands (classify commands))
  ∧ normalize c ∈ restored (set_commands (classify commands))
                           (delete_commands (classify commands)).
Proof.
  intros Hc Hset Hd Hdel Hstart. split; [apply updates_of_diff_config|].
  rewrite classify_filter. cbn [set_commands delete_commands].
  apply elem_of_restored. split.
  - apply list_elem_of_In, filter_In. split; [|done].
    by apply list_elem_of_In, list_elem_of_fmap_2.
  - exists (normalize d). split; [|done].
    apply list_elem_of_In, filter_In. split; [|done].
    by apply list_elem_of_In, list_elem_of_fmap_2.
Qed.

Lemma restoration_rule_witness :
  updates_of
    (diff_config
       [text "delete interfaces eth0"; text "set interfaces eth0 address 1.2.3.4"]
       (text "set interfaces eth0 address 1.2.3.4")) =
    delete_commands
      (classify [text "delete interfaces eth0";
                 text "set interfaces eth0 address 1.2.3.4"])
    ++ filter (λ line, line ∉ live_lines (text "set interfaces eth0 address 1.2.3.4"))
         (set_commands
            (classify [text "delete interfaces eth0";
                       text "set interfaces eth0 address 1.2.3.4"]))
    ++ restored
         (set_commands
            (classify [text "delete interfaces eth0";
                       text "set interfaces eth0 address 1.2.3.4"]))
         (delete_commands
            (classify [text "delete interfaces eth0";
                       text "set interfaces eth0 address 1.2.3.4"]))
  ∧ normalize (text "set interfaces eth0 address 1.2.3.4")
      ∈ restored
          (set_commands
             (classify [text "delete interfaces eth0";
                        text "set interfaces eth0 address 1.2.3.4"]))
          (delete_commands
             (classify [text "delete interfaces eth0";
                        text "set interfaces eth0 address 1.2.3.4"])).
Proof.
  apply (restoration_rule
           [text "delete interfaces eth0"; text "set interfaces eth0 address 1.2.3.4"]
           (text "set interfaces eth0 address 1.2.3.4")
           (text "set interfaces eth0 address 1.2.3.4")
           (text "delete interfaces eth0")).
  - apply (bool_decide_unpack _). by vm_compute.
  - by vm_compute.
  - apply (bool_decide_unpack _). by vm_compute.
  - by vm_compute.
  - by vm_compute.
Defined.

(** C4. Restoration after delete: for the candidate
    [delete interfaces eth0], [set interfaces eth0 address 1.2.3.4] and the
    live configuration [set interfaces eth0 address 1.2.3.4], the updates
    are the delete command followed by the set command, so they contain
    both. *)
Theorem restoration_after_delete :
  updates_of
    (diff_config
       [text "delete interfaces eth0"; text "set interfaces eth0 address 1.2.3.4"]
       (text "set interfaces eth0 address 1.2.3.4"))
  = [text "delete interfaces eth0"; text "set interfaces eth0 address 1.2.3.4"]
  ∧ text "delete interfaces eth0"
      ∈ updates_of
          (diff_config
             [text "delete interfaces eth0";
              text "set interfaces eth0 address 1.2.3.4"]
             (text "set interfaces eth0 address 1.2.3.4"))
  ∧ text "set interfaces eth0 address 1.2.3.4"
      ∈ updates_of
          (diff_config
             [text "delete interfaces eth0";
              text "set interfaces eth0 address 1.2.3.4"]
             (text "set interfaces eth0 address 1.2.3.4")).
Proof. repeat split; evaluate. Qed.

(** C5, as stated, fails for the final list: with the candidate [set a b],
    the live configuration [set c d] and the module told to delete unmanaged
    configuration, the commands are [set a b] followed by [delete c d]. *)
Lemma delete_before_set_counterexample :
  diff_config [text "set a b"] (text "set c d")
    = ([text "set a b"], [text "set c d"], [])
  ∧ run_updates true [text "set a b"] (text "set c d")
    = [text "set a b"; text "delete c d"]
  ∧ ¬ deletes_before_sets (run_updates true [text "set a b"] (text "set c d")).
Proof.
  split; [evaluate|]. split; [evaluate|].
  intros H.
  assert (1 < 0); [|lia].
  apply (H 0 1 (text "set a b") (text "delete c d")); evaluate.
Qed.

(** C5, amended. In the updates that [diff_config] returns every delete
    statement precedes every set statement.  The final list is that list
    followed by the commands of the promotion step, one per unmanaged line
    with its leading [set ] replaced by [delete ], which therefore come
    after the set statements; without promotion it is that list. *)
Theorem delete_before_set (promote : bool) (commands : list str) (config : str) :
  deletes_before_sets (updates_of (diff_config commands config))
  ∧ run_updates promote commands config =
      updates_of (diff_config commands config)
      ++ (if promote
          then map sub_set_delete (unmanaged_of (diff_config commands config))
          else []).
Proof.
  split.
  - destruct (updates_shape commands config) as (sets & -> & Hsets).
    apply deletes_before_sets_app; [apply Forall_filter_bool | done].
  - unfold run_updates, updates_of, unmanaged_of.
    destruct (diff_config commands config) as [[updates unmanaged] invalid].
    cbn [fst snd]. destruct promote.
    + rewrite andb_true_r. destruct unmanaged as [|l unmanaged].
      * simpl. by rewrite app_nil_r.
      * cbn [truthy]. apply delete_unmanaged_app.
    + by rewrite andb_false_r, app_nil_r.
Qed.

(** C6, as stated, fails: text that begins with [set] is split at its
    newlines and returned line by line, whatever the parser of bracketed
    text does, so both lines come back in both orders; and in the loop over
    parsed items a later, more general line removes nothing. *)
Lemma prefix_collapse_counterexample :
  (∀ item_lines,
     config_to_commands item_lines (join LF [text "set a b"; text "set a"])
     = [text "set a b"; text "set a"])
  ∧ (∀ item_lines,
       config_to_commands item_lines (join LF [text "set a"; text "set a b"])
       = [text "set a"; text "set a b"])
  ∧ filter_less_specific [text "a b"; text "a"] = [text "a b"; text "a"].
Proof. repeat split; intros; evaluate. Qed.

(** C6, amended. Input in set format is not collapsed: the two lines
    [set a b], [set a] are returned as they are, in either order.  In the
    loop over the items parsed from bracketed text, an item that starts with
    an entry collected before it removes the first such entry and is
    appended (so the items [a], [a b] leave [a b]); an item that starts with
    no collected entry is appended and removes nothing (so the items [a b],
    [a] are both kept). *)
Theorem prefix_collapse (item_lines : str → list str) :
  config_to_commands item_lines (join LF [text "set a b"; text "set a"])
    = [text "set a b"; text "set a"]
  ∧ config_to_commands item_lines (join LF [text "set a"; text "set a b"])
    = [text "set a"; text "set a b"]
  ∧ (∀ before entry after item,
       Forall (λ e, startswith item e = false) before →
       startswith item entry = true →
       collect (before ++ entry :: after) item = before ++ after ++ [item])
  ∧ (∀ commands item,
       Forall (λ e, startswith item e = false) commands →
       collect commands item = commands ++ [item])
  ∧ filter_less_specific [text "a"; text "a b"] = [text "a b"]
  ∧ filter_less_specific [text "a b"; text "a"] = [text "a b"; text "a"].
Proof.
  split; [by vm_compute|]. split; [by vm_compute|].
  split; [|split; [|split; by vm_compute]].
  - intros before entry after item Hbefore Hentry. unfold collect.
    rewrite app_assoc. f_equal.
    induction Hbefore as [|e before He _ IH]; simpl.
    + by rewrite Hentry.
    + by rewrite He, IH.
  - intros commands item Hnone. unfold collect. f_equal.
    induction Hnone as [|e commands He _ IH]; simpl; [done|].
    by rewrite He, IH.
Qed.

(** C7. Empty candidate: for any live configuration text, [diff_config]
    returns no update and no invalid command, and the unmanaged list holds
    exactly the lines of the live configuration, quotes removed. *)
Theorem empty_candidate (config : str) :
  updates_of (diff_config [] config) = []
  ∧ invalid_of (diff_config [] config) = []
  ∧ ∀ line,
      line ∈ live_lines config ↔ line ∈ unmanaged_of (diff_config [] config).
Proof.
  assert (updates_of (diff_config [] config) = []) as Hupdates by done.
  split; [done|]. split; [done|]. intros line.
  rewrite elem_of_unmanaged, Hupdates. simpl. split.
  - intros Hin. split; [done|]. split; [|done]. apply not_elem_of_nil.
  - by intros [? _].
Qed.

Lemma sublist_filter_normalize (commands : list str) :
  map normalize (List.filter is_delete commands)
    `sublist_of` List.filter is_delete (map normalize commands).
Proof.
  induction commands as [|c commands IH]; simpl; [done|].
  destruct (is_delete c) eqn:Hc.
  - rewrite (normalize_is_delete _ Hc). simpl. by constructor.
  - destruct (is_delete (normalize c)); [by constructor | done].
Qed.

(** C8. Delete commands bypass the idempotence filter: for every candidate
    and every live configuration text, the updates begin with the candidate
    lines that are delete commands, in their order, followed by set
    commands only; every candidate line that starts with [delete ] is among
    them (as everywhere in the result, with its quote characters removed),
    these lines keep their relative order, and a candidate with a delete
    command gives a non-empty list of updates. *)
Theorem deletes_bypass_filter (commands : list str) (config : str) :
  (∃ sets,
     updates_of (diff_config commands config) =
       List.filter is_delete (map normalize commands) ++ sets
     ∧ Forall (λ l, is_set l = true) sets)
  ∧ (∀ c, c ∈ commands → is_delete c = true →
       normalize c ∈ updates_of (diff_config commands config))
  ∧ map normalize (List.filter is_delete commands)
      `sublist_of` updates_of (diff_config commands config)
  ∧ ((∃ c, c ∈ commands ∧ is_delete c = true) →
       updates_of (diff_config commands config) ≠ []).
Proof.
  destruct (updates_shape commands config) as (sets & Heq & Hsets).
  assert (∀ c, c ∈ commands → is_delete c = true →
            normalize c ∈ updates_of (diff_config commands config)) as Hin.
  { intros c Hc Hdel. rewrite Heq. apply elem_of_app. left.
    apply list_elem_of_In, filter_In. split.
    - by apply list_elem_of_In, list_elem_of_fmap_2.
    - by apply normalize_is_delete. }
  split; [by exists sets|]. split; [done|]. split.
  - rewrite Heq. apply sublist_inserts_r, sublist_filter_normalize.
  - intros (c & Hc & Hdel) Hnil. specialize (Hin c Hc Hdel).
    rewrite Hnil in Hin. by apply not_elem_of_nil in Hin.
Qed.

(** C9. The unmanaged list has no duplicate entry, whatever the live
    configuration text repeats: it is a selection from the elements of a
    set difference. *)
Theorem unmanaged_no_duplicates (commands : list str) (config : str) :
  NoDup (unmanaged_of (diff_config commands config)).
Proof.
  unfold unmanaged_of, diff_config. cbn [fst snd].
  apply NoDup_filter, NoDup_elements.
Qed.

(** C10. Classification: a candidate line, quotes removed, is a delete
    command exactly when it starts with [delete ] and a set command exactly
    when it starts with [set ], trailing space included, and is invalid
    otherwise; a line that starts with [delete ] or [set ] as given still
    does so with its quotes removed; each line is of exactly one kind and
    the three buckets are a rearrangement of the candidate; the invalid list
    returned is the bucket of invalid lines; the bare lines [set] and
    [delete] are invalid. *)
Theorem classification (commands : list str) (config : str) :
  classify commands =
    Buckets (List.filter is_set (map normalize commands))
            (List.filter is_delete (map normalize commands))
            (List.filter is_invalid (map normalize commands))
  ∧ (∀ c, (is_delete c = true → is_delete (normalize c) = true)
          ∧ (is_set c = true → is_set (normalize c) = true))
  ∧ (∀ line,
       (is_delete line = true ∧ is_set line = false ∧ is_invalid line = false)
       ∨ (is_delete line = false ∧ is_set line = true ∧ is_invalid line = false)
       ∨ (is_delete line = false ∧ is_set line = false ∧ is_invalid line = true))
  ∧ map normalize commands ≡ₚ
      set_commands (classify commands) ++ delete_commands (classify commands)
      ++ invalid_commands (classify commands)
  ∧ invalid_of (diff_config commands config) =
      List.filter is_invalid (map normalize commands)
  ∧ is_invalid (text "set") = true
  ∧ is_invalid (text "delete") = true
  ∧ invalid_of (diff_config [text "set"; text "delete"] config)
    = [text "set"; text "delete"].
Proof.
  split; [apply classify_filter|].
  split; [intros c; split; [apply normalize_is_delete | apply normalize_is_set]|].
  split; [apply kinds_exclusive|]. split.
  { rewrite classify_filter. apply kinds_partition. }
  split.
  { by rewrite invalid_of_diff_config, classify_filter. }
  repeat split.
Qed.

(** * Further properties *)

(** ** Shared facts *)

Lemma elem_of_filter_bool (f : str → bool) (l : list str) (x : str) :
  x ∈ List.filter f l ↔ x ∈ l ∧ f x = true.
Proof. by rewrite !list_elem_of_In, filter_In. Qed.

Lemma elem_of_updates (commands : list str) (config : str) (u : str) :
  u ∈ updates_of (diff_config commands config) ↔
    u ∈ List.filter is_delete (map normalize commands)
    ∨ (u ∈ List.filter is_set (map normalize commands) ∧ u ∉ live_lines config)
    ∨ u ∈ restored (List.filter is_set (map normalize commands))
                   (List.filter is_delete (map normalize commands)).
Proof.
  rewrite updates_of_diff_config, classify_filter.
  cbn [set_commands delete_commands].
  rewrite !elem_of_app, list_elem_of_filter. tauto.
Qed.

Lemma normalize_quote_free (c : str) : quote_free (normalize c).
Proof.
  unfold quote_free, normalize, remove_char, to_native.
  intros [_ H]%list_elem_of_In%filter_In. by rewrite N.eqb_refl in H.
Qed.

Lemma quote_free_normalize (c : str) : quote_free c → normalize c = c.
Proof.
  unfold quote_free, normalize, remove_char, to_native.
  induction c as [|x c IH]; intros Hfree; simpl; [done|].
  destruct (N.eqb_spec x QUOTE) as [->|_].
  - destruct Hfree. by left.
  - simpl. f_equal. apply IH. intros Hin. apply Hfree. by right.
Qed.

Lemma normalize_idemp (c : str) : normalize (normalize c) = normalize c.
Proof. apply quote_free_normalize, normalize_quote_free. Qed.

Lemma live_lines_quote_free (config : str) :
  Forall quote_free (live_lines config).
Proof.
  unfold live_lines. fold normalize. apply Forall_fmap, Forall_true.
  intros c. apply normalize_quote_free.
Qed.

(** ** diff_config *)

(** X1. Every update is a candidate line, quotes removed, that starts with
    [delete ] or [set ]: nothing invalid and nothing of the live
    configuration alone is ever among the updates. *)
Theorem updates_are_candidate_commands (commands : list str) (config : str) :
  Forall
    (λ u, (∃ c, c ∈ commands ∧ u = normalize c)
          ∧ (is_delete u = true ∨ is_set u = true))
    (updates_of (diff_config commands config)).
Proof.
  apply Forall_forall. intros u Hu. apply elem_of_updates in Hu.
  assert (u ∈ List.filter is_delete (map normalize commands)
          ∨ u ∈ List.filter is_set (map normalize commands)) as Hkind.
  { destruct Hu as [?|[[? _]|[? _]%elem_of_restored]]; auto. }
  destruct Hkind as [[Hin Hk]%elem_of_filter_bool|[Hin Hk]%elem_of_filter_bool];
    apply list_elem_of_fmap in Hin as (c & -> & Hc); eauto.
Qed.

(** X2. Every unmanaged line is a line of the live configuration and is
    not a set command of the candidate. *)
Theorem unmanaged_sound (commands : list str) (config : str) :
  Forall
    (λ l, l ∈ live_lines config
          ∧ ¬ ∃ c, c ∈ commands ∧ is_set (normalize c) = true ∧ normalize c = l)
    (unmanaged_of (diff_config commands config)).
Proof.
  apply Forall_forall. intros l (Hlive & Hnot & _)%elem_of_unmanaged.
  split; [done|]. intros (c & Hc & Hset & <-). apply Hnot.
  rewrite classify_filter. cbn [set_commands].
  apply elem_of_filter_bool. split; [|done]. by apply list_elem_of_fmap_2.
Qed.

(** X3. A candidate without delete commands gives as updates exactly its
    set commands that are not live, in the order of the candidate; none of
    the updates is a live line. *)
Theorem updates_without_delete (commands : list str) (config : str) :
  Forall (λ c, is_delete (normalize c) = false) commands →
  updates_of (diff_config commands config) =
    filter (λ line, line ∉ live_lines config)
           (List.filter is_set (map normalize commands))
  ∧ Forall (λ u, u ∉ live_lines config) (updates_of (diff_config commands config)).
Proof.
  intros Hnone.
  assert (updates_of (diff_config commands config) =
            filter (λ line, line ∉ live_lines config)
                   (List.filter is_set (map normalize commands))) as Heq.
  { rewrite updates_of_diff_config, classify_filter.
    cbn [set_commands delete_commands].
    rewrite (filter_bool_none is_delete) by by apply Forall_fmap.
    by rewrite restored_no_deletes, app_nil_r. }
  split; [done|]. rewrite Heq. apply Forall_forall.
  by intros u [? _]%list_elem_of_filter.
Qed.

Lemma updates_without_delete_witness :
  updates_of (diff_config [text "set a b"; text "set c d"; text "show"]
                          (text "set a b")) =
    filter (λ line, line ∉ live_lines (text "set a b"))
           (List.filter is_set
              (map normalize [text "set a b"; text "set c d"; text "show"]))
  ∧ Forall (λ u, u ∉ live_lines (text "set a b"))
      (updates_of (diff_config [text "set a b"; text "set c d"; text "show"]
                               (text "set a b"))).
Proof.
  apply (updates_without_delete [text "set a b"; text "set c d"; text "show"]
           (text "set a b")).
  vm_compute. repeat constructor.
Defined.

(** X4. A set command that is already live is among the updates only when
    some delete command of the candidate is a prefix of its delete form. *)
Theorem live_line_sent_only_under_delete (commands : list str) (config : str) :
  Forall
    (λ u, u ∈ live_lines config → is_set u = true →
          ∃ d, d ∈ commands ∧ is_delete (normalize d) = true
               ∧ startswith (sub_set_delete u) (normalize d) = true)
    (updates_of (diff_config commands config)).
Proof.
  apply Forall_forall. intros u Hu Hlive Hset. apply elem_of_updates in Hu.
  destruct Hu as [[_ Hdel]%elem_of_filter_bool|[[_ Hno]|Hres]].
  - apply is_set_not_delete in Hset. congruence.
  - by destruct Hno.
  - apply elem_of_restored in Hres as (_ & dline & Hd & Hstart).
    apply elem_of_filter_bool in Hd as [Hd Hdel].
    apply list_elem_of_fmap in Hd as (d & -> & Hd). eauto.
Qed.

Lemma filter_eq_length (l : list str) (x : str) :
  x ∈ l → 1 ≤ length (filter (λ u, u = x) l).
Proof.
  induction 1 as [x l|x y l _ IH].
  - rewrite filter_cons_True by done. simpl. lia.
  - rewrite filter_cons. destruct (decide (y = x)); simpl; lia.
Qed.

(** X5. A set command of the candidate that is not live and whose delete
    form starts with a delete command of the candidate is among the updates
    at least twice: once as a change and once added back. *)
Theorem restored_twice (commands : list str) (config c d : str) :
  c ∈ commands → is_set (normalize c) = true →
  normalize c ∉ live_lines config →
  d ∈ commands → is_delete (normalize d) = true →
  startswith (sub_set_delete (normalize c)) (normalize d) = true →
  2 ≤ length (filter (λ u, u = normalize c)
                     (updates_of (diff_config commands config))).
Proof.
  intros Hc Hset Hlive Hd Hdel Hstart.
  rewrite updates_of_diff_config, classify_filter.
  cbn [set_commands delete_commands].
  rewrite !filter_app, !length_app.
  assert (normalize c ∈ List.filter is_set (map normalize commands)) as Hin.
  { apply elem_of_filter_bool. split; [|done]. by apply list_elem_of_fmap_2. }
  assert (1 ≤ length (filter (λ u, u = normalize c)
            (filter (λ line, line ∉ live_lines config)
                    (List.filter is_set (map normalize commands))))) as H1.
  { apply filter_eq_length, list_elem_of_filter. by split. }
  assert (1 ≤ length (filter (λ u, u = normalize c)
            (restored (List.filter is_set (map normalize commands))
                      (List.filter is_delete (map normalize commands))))) as H2.
  { apply filter_eq_length, elem_of_restored. split; [done|].
    exists (normalize d). split; [|done].
    apply elem_of_filter_bool. split; [|done]. by apply list_elem_of_fmap_2. }
  lia.
Qed.

Lemma restored_twice_witness :
  2 ≤ length
        (filter (λ u, u = normalize (text "set interfaces eth0 mtu 1500"))
           (updates_of
              (diff_config
                 [text "delete interfaces eth0";
                  text "set interfaces eth0 mtu 1500"]
                 (text "set interfaces eth0 mtu 9000")))).
Proof.
  apply (restored_twice
           [text "delete interfaces eth0"; text "set interfaces eth0 mtu 1500"]
           (text "set interfaces eth0 mtu 9000")
           (text "set interfaces eth0 mtu 1500")
           (text "delete interfaces eth0")).
  - apply (bool_decide_unpack _). by vm_compute.
  - by vm_compute.
  - apply (bool_decide_unpack _). by vm_compute.
  - apply (bool_decide_unpack _). by vm_compute.
  - by vm_compute.
  - by vm_compute.
Defined.

(** X6. Single quotes in the candidate do not matter: the candidate with
    the quotes removed from every line gives the same result. *)
Theorem candidate_quotes_insignificant (commands : list str) (config : str) :
  diff_config (map normalize commands) config = diff_config commands config.
Proof.
  assert (classify (map normalize commands) = classify commands) as H.
  { rewrite !classify_filter, map_map.
    by rewrite (map_ext _ normalize normalize_idemp). }
  unfold diff_config. by rewrite H.
Qed.

Lemma has_char_elem_of (c : N) (s : str) : has_char c s = true ↔ c ∈ s.
Proof.
  unfold has_char. rewrite existsb_exists. split.
  - intros (x & Hx & ->%N.eqb_eq). by apply list_elem_of_In.
  - intros Hc. exists c. split; [by apply list_elem_of_In | apply N.eqb_refl].
Qed.

Lemma rsplit1_head_last (sep : N) (head tail : str) :
  sep ∉ tail → rsplit1_head sep (head ++ sep :: tail) = head.
Proof.
  intros Htail. induction head as [|x head IH]; simpl.
  - rewrite N.eqb_refl. destruct (has_char sep tail) eqn:E; [|done].
    by apply has_char_elem_of in E.
  - assert (has_char sep (head ++ sep :: tail) = true) as ->.
    { apply has_char_elem_of, elem_of_app. right. by left. }
    by rewrite andb_false_r, IH.
Qed.

Lemma single_line_app (a b : str) :
  single_line a → single_line b → single_line (a ++ b).
Proof. unfold single_line. intros. by apply Forall_app. Qed.

Lemma quote_free_app (a b : str) :
  quote_free a → quote_free b → quote_free (a ++ b).
Proof. unfold quote_free. rewrite elem_of_app. tauto. Qed.

Lemma quote_free_cons (x : N) (a : str) :
  x ≠ QUOTE → quote_free a → quote_free (x :: a).
Proof.
  unfold quote_free. rewrite elem_of_cons. intros Hx Ha [H|H]; [|done].
  by apply Hx.
Qed.

(** X7. Changing the value of a setting: when the live configuration is
    the one line [key value] and the candidate is the one line
    [key new-value] for the same key, the only update is the candidate
    line, and the live line is not reported as unmanaged. *)
Theorem value_change (key old new : str) :
  is_set key = true →
  quote_free key → quote_free old → quote_free new →
  single_line key → single_line old →
  SPACE ∉ old → old ≠ new →
  diff_config [key ++ SPACE :: new] (key ++ SPACE :: old)
  = ([key ++ SPACE :: new], [], []).
Proof.
  intros Hset Hqk Hqo Hqn Hlk Hlo Hsp Hne.
  set (line_old := key ++ SPACE :: old).
  set (line_new := key ++ SPACE :: new).
  assert (normalize line_old = line_old) as Hno.
  { by apply quote_free_normalize, quote_free_app, quote_free_cons. }
  assert (normalize line_new = line_new) as Hnn.
  { by apply quote_free_normalize, quote_free_app, quote_free_cons. }
  assert (live_lines line_old = [line_old]) as Hlive.
  { unfold live_lines. fold normalize. rewrite splitlines_single.
    - simpl. by rewrite Hno.
    - apply single_line_app; [done|]. by constructor.
    - subst line_old. by destruct key. }
  assert (is_set line_new = true) as Hsn.
  { apply startswith_spec in Hset as [r Hr]. apply startswith_spec.
    exists (r ++ SPACE :: new). subst line_new. by rewrite Hr, <- app_assoc. }
  assert (classify [line_new] = Buckets [line_new] [] []) as Hclass.
  { rewrite classify_filter. simpl. rewrite Hnn, Hsn.
    rewrite (is_set_not_delete _ Hsn). unfold is_invalid.
    by rewrite Hsn, andb_false_r. }
  assert (line_new ≠ line_old) as Hdiff.
  { subst line_old line_new. intros H%app_inv_head. congruence. }
  unfold diff_config. rewrite Hlive, Hclass.
  cbn [set_commands delete_commands invalid_commands truthy app].
  rewrite (filter_cons_True _ line_new) by (by intros ->%list_elem_of_singleton).
  rewrite filter_nil.
  assert ((list_to_set [line_old] : gset str) ∖ list_to_set [line_new]
          = {[line_old]}) as ->.
  { apply set_eq. intros x.
    rewrite elem_of_difference, !elem_of_list_to_set, !list_elem_of_singleton,
      elem_of_singleton.
    split; [by intros [? _] | intros ->; split; [done | by intros ?]]. }
  rewrite elements_singleton, collect_matches_filter. simpl.
  assert (rsplit1_head SPACE line_old = key) as ->
      by by apply rsplit1_head_last.
  assert (startswith line_new key = true) as -> by apply startswith_app.
  simpl. rewrite filter_cons_False; [done|].
  intros H. apply H. by left.
Qed.

Lemma value_change_witness :
  diff_config [text "set system host-name" ++ SPACE :: text "core"]
              (text "set system host-name" ++ SPACE :: text "edge")
  = ([text "set system host-name" ++ SPACE :: text "core"], [], []).
Proof.
  apply (value_change (text "set system host-name") (text "edge") (text "core")).
  - by vm_compute.
  - apply (bool_decide_unpack _). by vm_compute.
  - apply (bool_decide_unpack _). by vm_compute.
  - apply (bool_decide_unpack _). by vm_compute.
  - vm_compute. repeat constructor.
  - vm_compute. repeat constructor.
  - apply (bool_decide_unpack _). by vm_compute.
  - apply (bool_decide_unpack _). by vm_compute.
Defined.

(** ** The filter of less specific lines and config_to_commands *)

Lemma delete_first_prefix_sublist (item : str) (commands : list str) :
  delete_first_prefix item commands `sublist_of` commands.
Proof.
  induction commands as [|e commands IH]; simpl; [done|].
  destruct (startswith item e); by constructor.
Qed.

Lemma fold_collect_sublist (items acc : list str) :
  fold_left collect items acc `sublist_of` acc ++ items.
Proof.
  revert acc. induction items as [|item items IH]; intros acc; simpl.
  - by rewrite app_nil_r.
  - etrans; [apply IH|]. unfold collect.
    rewrite <- app_assoc. simpl. apply sublist_app; [|done].
    apply delete_first_prefix_sublist.
Qed.

Lemma fold_collect_snoc (items acc : list str) (item : str) :
  fold_left collect (items ++ [item]) acc =
    delete_first_prefix item (fold_left collect items acc) ++ [item].
Proof. by rewrite fold_left_app. Qed.

(** X8. The filter of less specific lines only drops items: what it keeps
    is a subsequence of the parsed items, in their order, and the last item
    is always kept, at the end. *)
Theorem filter_less_specific_keeps_order (items : list str) :
  filter_less_specific items `sublist_of` items
  ∧ (∀ before item, items = before ++ [item] →
       ∃ kept, filter_less_specific items = kept ++ [item]).
Proof.
  split.
  - apply (fold_collect_sublist items []).
  - intros before item ->. unfold filter_less_specific.
    rewrite fold_collect_snoc. eauto.
Qed.

Lemma last_cons_default (x d d' : str) (l : list str) :
  List.last (x :: l) d = List.last (x :: l) d'.
Proof.
  revert x. induction l as [|y l IH]; intros x; [done|].
  change (List.last (y :: l) d = List.last (y :: l) d'). apply IH.
Qed.

Lemma fold_collect_chain (items : list str) (a : str) :
  nested_chain (a :: items) →
  fold_left collect items [a] = [List.last items a].
Proof.
  revert a. induction items as [|b items IH]; intros a Hchain; [done|].
  destruct Hchain as [Hab Hchain].
  change (fold_left collect (b :: items) [a])
    with (fold_left collect items (collect [a] b)).
  unfold collect. simpl. rewrite Hab. simpl. rewrite IH by done.
  destruct items as [|c items]; [done|].
  f_equal. apply last_cons_default.
Qed.

(** X9. Items that form a nested chain, each one starting with the one
    before it, as a block and the lines inside it do, collapse to the last,
    most specific item. *)
Theorem nested_chain_collapses (first : str) (items : list str) :
  nested_chain (first :: items) →
  filter_less_specific (first :: items) = [List.last items first].
Proof.
  intros Hchain. unfold filter_less_specific.
  change (fold_left collect (first :: items) [])
    with (fold_left collect items [first]).
  by apply fold_collect_chain.
Qed.

Lemma nested_chain_collapses_witness :
  filter_less_specific
    [text "interfaces {"; text "interfaces { ethernet eth0 {";
     text "interfaces { ethernet eth0 { mtu 1500"]
  = [List.last
       [text "interfaces { ethernet eth0 {";
        text "interfaces { ethernet eth0 { mtu 1500"]
       (text "interfaces {")].
Proof.
  apply (nested_chain_collapses (text "interfaces {")
           [text "interfaces { ethernet eth0 {";
            text "interfaces { ethernet eth0 { mtu 1500"]).
  vm_compute. repeat split.
Defined.

Lemma delete_first_prefix_none (item : str) (commands : list str) :
  Forall (λ e, startswith item e = false) commands →
  delete_first_prefix item commands = commands.
Proof. induction 1 as [|e l He _ IH]; simpl; [done|]. by rewrite He, IH. Qed.

Lemma prefix_free_snoc (items : list str) (item : str) :
  prefix_free (items ++ [item]) →
  prefix_free items ∧ Forall (λ e, startswith item e = false) items.
Proof.
  intros Hfree. split.
  - intros i j a b Hij Hi Hj. apply (Hfree i j); [done| |].
    + by apply lookup_app_l_Some.
    + by apply lookup_app_l_Some.
  - apply Forall_forall. intros e [i Hi]%list_elem_of_lookup.
    apply (Hfree i (length items)).
    + by apply lookup_lt_Some in Hi.
    + by apply lookup_app_l_Some.
    + rewrite lookup_app_r by lia. by rewrite Nat.sub_diag.
Qed.

(** X10. When no item starts with an item before it, the filter drops
    nothing. *)
Theorem prefix_free_unchanged (items : list str) :
  prefix_free items → filter_less_specific items = items.
Proof.
  unfold filter_less_specific.
  induction items as [|item items IH] using rev_ind; intros Hfree; [done|].
  apply prefix_free_snoc in Hfree as [Hfree Hnone].
  rewrite fold_collect_snoc, IH by done.
  by rewrite delete_first_prefix_none.
Qed.

Lemma prefix_free_unchanged_witness :
  filter_less_specific [text "system host-name edge"; text "service lldp"]
  = [text "system host-name edge"; text "service lldp"].
Proof.
  apply (prefix_free_unchanged
           [text "system host-name edge"; text "service lldp"]).
  intros i j a b Hij Hi Hj.
  destruct i as [|[|i]], j as [|[|j]]; try lia; try discriminate.
  injection Hi as <-. injection Hj as <-. by vm_compute.
Defined.

(** X11. Text that starts with neither [set] nor [delete] is turned into
    set commands only, at most one per parsed item, whatever the parser
    yields; against any live configuration, such a candidate has no invalid
    command and no delete among its updates. *)
Theorem bracketed_text_gives_set_commands
    (item_lines : str → list str) (config live : str) :
  startswith config (text "set") = false →
  startswith config (text "delete") = false →
  Forall (λ c, is_set c = true) (config_to_commands item_lines config)
  ∧ length (config_to_commands item_lines config) ≤ length (item_lines config)
  ∧ invalid_of (diff_config (config_to_commands item_lines config) live) = []
  ∧ Forall (λ u, is_set u = true)
      (updates_of (diff_config (config_to_commands item_lines config) live)).
Proof.
  intros Hs Hd. unfold config_to_commands. rewrite Hs, Hd. cbn [orb negb].
  set (commands := map _ (filter_less_specific (item_lines config))).
  assert (Forall (λ c, is_set c = true) commands) as Hset.
  { apply Forall_fmap, Forall_true. intros cmd. apply startswith_app. }
  assert (Forall (λ l, is_set l = true) (map normalize commands)) as Hnorm.
  { apply Forall_fmap. eapply Forall_impl; [exact Hset|].
    intros c. apply normalize_is_set. }
  split; [done|]. split.
  { subst commands. rewrite length_map.
    apply sublist_length, (fold_collect_sublist _ []). }
  split.
  - rewrite invalid_of_diff_config, classify_filter. cbn [invalid_commands].
    apply filter_bool_none. eapply Forall_impl; [exact Hnorm|].
    intros l Hl. simpl in Hl. unfold is_invalid. by rewrite Hl, andb_false_r.
  - destruct (updates_shape commands live) as (sets & -> & Hsets).
    rewrite (filter_bool_none is_delete); [done|].
    eapply Forall_impl; [exact Hnorm|]. intros l. apply is_set_not_delete.
Qed.

Lemma bracketed_text_gives_set_commands_witness :
  Forall (λ c, is_set c = true)
    (config_to_commands (λ _, [text "service {"; text "service { lldp"])
                        (text "service {"))
  ∧ length (config_to_commands (λ _, [text "service {"; text "service { lldp"])
                               (text "service {"))
    ≤ length [text "service {"; text "service { lldp"]
  ∧ invalid_of
      (diff_config
         (config_to_commands (λ _, [text "service {"; text "service { lldp"])
                             (text "service {"))
         (text "set service lldp")) = []
  ∧ Forall (λ u, is_set u = true)
      (updates_of
         (diff_config
            (config_to_commands (λ _, [text "service {"; text "service { lldp"])
                                (text "service {"))
            (text "set service lldp"))).
Proof.
  apply (bracketed_text_gives_set_commands
           (λ _, [text "service {"; text "service { lldp"])
           (text "service {") (text "set service lldp")).
  - by vm_compute.
  - by vm_compute.
Defined.

(** ** get_candidate *)


(** ** The order of text and [sorted] *)

Lemma str_le_cons (x y : N) (a b : str) :
  str_le (x :: a) (y :: b) = true ↔ (x < y)%N ∨ (x = y ∧ str_le a b = true).
Proof.
  simpl. destruct (N.ltb_spec x y) as [Hlt|Hge].
  - split; [by left | done].
  - destruct (N.eqb_spec x y) as [->|Hne].
    + split; [by right | intros [?|[_ ?]]; [lia | done]].
    + split; [done | intros [?|[? _]]; [lia | done]].
Qed.

#[global] Instance str_ord_total : Total str_ord.
Proof.
  unfold Total, str_ord. intros a.
  induction a as [|x a IH]; intros [|y b];
    [by left | by left | by right |].
  rewrite !str_le_cons. destruct (IH b) as [H|H];
    destruct (N.lt_trichotomy x y) as [?|[->|?]]; auto.
Qed.

#[global] Instance str_ord_trans : Transitive str_ord.
Proof.
  unfold Transitive, str_ord. intros a.
  induction a as [|x a IH]; intros [|y b] [|z c]; try done.
  rewrite !str_le_cons.
  intros [Hxy|[-> Hab]] [Hyz|[-> Hbc]]; [left; lia | by left | by left |].
  right. split; [done|]. by apply (IH b).
Qed.

#[global] Instance str_ord_antisymm : AntiSymm (=) str_ord.
Proof.
  unfold AntiSymm, str_ord. intros a.
  induction a as [|x a IH]; intros [|y b]; try done.
  rewrite !str_le_cons.
  intros [Hxy|[-> Hab]] [Hyx|[Heq Hba]]; try lia.
  f_equal. by apply IH.
Qed.

Lemma sorted_Permutation (l : list str) : sorted l ≡ₚ l.
Proof. apply merge_sort_Permutation. Qed.

Lemma sorted_StronglySorted (l : list str) : StronglySorted str_ord (sorted l).
Proof. apply StronglySorted_merge_sort; apply _. Qed.

(** [sorted l] is the only ascending rearrangement of [l]. *)
Lemma sorted_unique (l l' : list str) :
  StronglySorted str_ord l' → l' ≡ₚ l → l' = sorted l.
Proof.
  intros Hsorted Hperm. apply (StronglySorted_unique str_ord); [done| |].
  - apply sorted_StronglySorted.
  - by rewrite Hperm, sorted_Permutation.
Qed.

Lemma truthy_Permutation (l l' : list str) : l ≡ₚ l' → truthy l = truthy l'.
Proof.
  intros H. destruct l, l'; try done.
  - by apply Permutation_nil_cons in H.
  - symmetry in H. by apply Permutation_nil_cons in H.
Qed.

Lemma truthy_sorted (l : list str) : truthy (sorted l) = truthy l.
Proof. apply truthy_Permutation, sorted_Permutation. Qed.

Lemma truthy_true (l : list str) : truthy l = true ↔ l ≠ [].
Proof. by destruct l. Qed.

(** ** run *)

Lemma run_updates_app (promote : bool) (commands : list str) (config : str) :
  run_updates promote commands config =
    updates_of (diff_config commands config)
    ++ (if promote
        then map sub_set_delete (unmanaged_of (diff_config commands config))
        else []).
Proof.
  unfold run_updates, updates_of, unmanaged_of.
  destruct (diff_config commands config) as [[updates unmanaged] invalid].
  cbn [fst snd]. destruct promote.
  - rewrite andb_true_r. destruct unmanaged as [|l unmanaged].
    + simpl. by rewrite app_nil_r.
    + cbn [truthy]. apply delete_unmanaged_app.
  - by rewrite andb_false_r, app_nil_r.
Qed.

Lemma run_candidate_fields (p : module_params) (config : str)
    (changed : bool) (warnings candidate : list str) :
  run_candidate p config changed warnings candidate =
    let d := diff_config candidate config in
    let updates := run_updates (param_delete_unmanaged p) candidate config in
    (Result updates (sorted (unmanaged_of d)) (sorted (invalid_of d))
       (if truthy updates then true else changed)
       ((if truthy (unmanaged_of d)
         then warnings ++ [unmanaged_warning] else warnings)
        ++ (if truthy (invalid_of d) then [invalid_warning] else [])),
     if truthy updates
     then [load_config updates (negb (check_mode p)) (param_comment p)]
     else []).
Proof.
  unfold run_candidate, run_updates, unmanaged_of, invalid_of. cbn zeta.
  destruct (diff_config candidate config) as [[updates unmanaged] invalid].
  cbn [fst snd]. rewrite !truthy_sorted.
  destruct (truthy invalid); [done | by rewrite app_nil_r].
Qed.

Lemma not_nil_elem_of (l : list str) : l ≠ [] ↔ ∃ x, x ∈ l.
Proof.
  destruct l as [|x l].
  - split; [done | by intros [x Hx%elem_of_nil]].
  - split; [intros _; exists x; by left | done].
Qed.

Lemma updates_all_invalid (candidate : list str) (config : str) :
  Forall (λ c, is_invalid (normalize c) = true) candidate →
  updates_of (diff_config candidate config) = []
  ∧ set_commands (classify candidate) = [].
Proof.
  intros Hinv.
  assert (Forall (λ l, is_delete l = false ∧ is_set l = false)
                 (map normalize candidate)) as Hkinds.
  { apply Forall_fmap. eapply Forall_impl; [exact Hinv|]. intros c.
    simpl. unfold is_invalid. by intros [->%negb_true_iff ->%negb_true_iff]%andb_true_iff. }
  rewrite updates_of_diff_config, classify_filter.
  cbn [set_commands delete_commands].
  rewrite (filter_bool_none is_delete), (filter_bool_none is_set).
  - by rewrite restored_no_deletes.
  - eapply Forall_impl; [exact Hkinds|]. by intros l [_ ?].
  - eapply Forall_impl; [exact Hkinds|]. by intros l [? _].
Qed.

Lemma sub_set_delete_quote_free (line : str) :
  quote_free line → quote_free (sub_set_delete line).
Proof.
  intros Hfree. unfold sub_set_delete.
  destruct (startswith line (text "set ")); [|done].
  apply quote_free_app.
  - unfold quote_free. apply (bool_decide_unpack _). by vm_compute.
  - unfold quote_free in *. intros Hin. apply Hfree.
    rewrite <- (firstn_skipn 4 line). apply elem_of_app. by right.
Qed.

Lemma sub_set_delete_set (path : str) :
  sub_set_delete (text "set " ++ path) = text "delete " ++ path.
Proof. unfold sub_set_delete. by rewrite startswith_app. Qed.

(** X13. Running the module with the device's own configuration changes
    nothing: when every candidate line is a set command that is live and
    every live line is a candidate line, there is no command, no call of
    [load_config], nothing unmanaged or invalid, and [changed] and the
    warnings stay as they were, whatever the parameters. *)
Theorem run_on_own_configuration (p : module_params) (config : str)
    (changed : bool) (warnings candidate : list str) :
  Forall (λ c, is_set (normalize c) = true ∧ normalize c ∈ live_lines config)
         candidate →
  Forall (λ l, l ∈ map normalize candidate) (live_lines config) →
  run_candidate p config changed warnings candidate
  = (Result [] [] [] changed warnings, []).
Proof.
  intros Hlive Hcover.
  destruct (nothing_to_update candidate config Hlive) as [Hupdates Hinvalid].
  assert (unmanaged_of (diff_config candidate config) = []) as Hunmanaged.
  { destruct (unmanaged_of (diff_config candidate config)) as [|l um] eqn:E;
      [done|].
    assert (l ∈ unmanaged_of (diff_config candidate config)) as Hl
        by (rewrite E; by left).
    apply elem_of_unmanaged in Hl as (Hin & Hnot & _). destruct Hnot.
    rewrite classify_filter. cbn [set_commands].
    rewrite filter_bool_all.
    - by apply (proj1 (Forall_forall _ _) Hcover).
    - apply Forall_fmap. eapply Forall_impl; [exact Hlive|]. by intros c [? _]. }
  rewrite run_candidate_fields, run_updates_app. cbn zeta.
  rewrite Hupdates, Hinvalid, Hunmanaged. simpl.
  rewrite app_nil_r. by destruct (param_delete_unmanaged p).
Qed.

Lemma run_on_own_configuration_witness :
  run_candidate
    (ModuleParams None None None (text "configured by edgeos_config") true false)
    (join LF [text "set system host-name 'edge'"; text "set service lldp"])
    false []
    [text "set service lldp"; text "set system host-name edge"]
  = (Result [] [] [] false [], []).
Proof.
  apply (run_on_own_configuration
           (ModuleParams None None None (text "configured by edgeos_config")
                         true false)
           (join LF [text "set system host-name 'edge'"; text "set service lldp"])
           false []
           [text "set service lldp"; text "set system host-name edge"]).
  - apply (bool_decide_unpack _). by vm_compute.
  - apply (bool_decide_unpack _). by vm_compute.
Defined.

(** X14. The unmanaged and the invalid list that [run] reports are in
    ascending order of text and are rearrangements of the lists that
    [diff_config] returns. *)
Theorem run_reports_sorted (p : module_params) (config : str)
    (changed : bool) (warnings candidate : list str) :
  StronglySorted str_ord
    (result_unmanaged (run_candidate p config changed warnings candidate).1)
  ∧ result_unmanaged (run_candidate p config changed warnings candidate).1
      ≡ₚ unmanaged_of (diff_config candidate config)
  ∧ StronglySorted str_ord
      (result_invalid (run_candidate p config changed warnings candidate).1)
  ∧ result_invalid (run_candidate p config changed warnings candidate).1
      ≡ₚ invalid_of (diff_config candidate config).
Proof.
  rewrite run_candidate_fields. cbn [fst result_unmanaged result_invalid].
  repeat split;
    first [ apply sorted_StronglySorted | apply sorted_Permutation ].
Qed.

(** X15. [load_config] is called at most once, with all the commands, and
    commits unless the module runs in check mode; it is called, and
    [changed] set, exactly when there is a command, which is the case
    exactly when the candidate has a delete command, or a set command that
    is not live, or when unmanaged lines are to be deleted and there is
    one. *)
Theorem device_contact (p : module_params) (config : str)
    (changed : bool) (warnings candidate : list str) :
  (run_candidate p config changed warnings candidate).2
  = (if truthy (result_commands (run_candidate p config changed warnings candidate).1)
     then [load_config
             (result_commands (run_candidate p config changed warnings candidate).1)
             (negb (check_mode p)) (param_comment p)]
     else [])
  ∧ result_changed (run_candidate p config changed warnings candidate).1
    = (truthy (result_commands (run_candidate p config changed warnings candidate).1)
       || changed)
  ∧ (result_commands (run_candidate p config changed warnings candidate).1 ≠ []
     ↔ (∃ c, c ∈ candidate ∧ is_delete (normalize c) = true)
       ∨ (∃ c, c ∈ candidate ∧ is_set (normalize c) = true
               ∧ normalize c ∉ live_lines config)
       ∨ (param_delete_unmanaged p = true
          ∧ unmanaged_of (diff_config candidate config) ≠ [])).
Proof.
  rewrite run_candidate_fields.
  cbn [fst snd result_commands result_changed].
  split; [done|]. split; [by destruct (truthy _)|].
  rewrite run_updates_app, not_nil_elem_of. split.
  - intros (u & [Hu|Hu]%elem_of_app).
    + apply elem_of_updates in Hu as [Hu|[[Hu Hno]|Hu]].
      * apply elem_of_filter_bool in Hu as [Hin Hk].
        apply list_elem_of_fmap in Hin as (c & -> & Hc). left. eauto.
      * apply elem_of_filter_bool in Hu as [Hin Hk].
        apply list_elem_of_fmap in Hin as (c & -> & Hc). right. left. eauto.
      * apply elem_of_restored in Hu as (_ & dline & Hd & _).
        apply elem_of_filter_bool in Hd as [Hin Hk].
        apply list_elem_of_fmap in Hin as (d & -> & Hd). left. eauto.
    + right. right. destruct (param_delete_unmanaged p); [|by apply elem_of_nil in Hu].
      split; [done|]. intros Hnil. rewrite Hnil in Hu. by apply elem_of_nil in Hu.
  - intros [(c & Hc & Hk)|[(c & Hc & Hk & Hno)|[Hflag Hum]]].
    + exists (normalize c). apply elem_of_app. left. apply elem_of_updates.
      left. apply elem_of_filter_bool. split; [|done].
      by apply list_elem_of_fmap_2.
    + exists (normalize c). apply elem_of_app. left. apply elem_of_updates.
      right. left. split; [|done]. apply elem_of_filter_bool.
      split; [|done]. by apply list_elem_of_fmap_2.
    + apply not_nil_elem_of in Hum as [l Hl]. exists (sub_set_delete l).
      apply elem_of_app. right. rewrite Hflag.
      by apply list_elem_of_fmap_2.
Qed.

(** X16. A candidate with no set and no delete command, run with
    [delete_unmanaged] on, sends a command for every line of the live
    configuration and nothing else: the line with its leading [set ]
    replaced by [delete ]. *)
Theorem nothing_managed_deletes_everything (p : module_params) (config : str)
    (changed : bool) (warnings candidate : list str) :
  Forall (λ c, is_invalid (normalize c) = true) candidate →
  param_delete_unmanaged p = true →
  ∀ c,
    c ∈ result_commands (run_candidate p config changed warnings candidate).1
    ↔ ∃ l, l ∈ live_lines config ∧ c = sub_set_delete l.
Proof.
  intros Hinv Hflag c.
  destruct (updates_all_invalid candidate config Hinv) as [Hupdates Hsets].
  rewrite run_candidate_fields. cbn [fst result_commands].
  rewrite run_updates_app, Hflag, Hupdates, app_nil_l, list_elem_of_fmap.
  split.
  - intros (l & -> & (Hl & _)%elem_of_unmanaged). eauto.
  - intros (l & Hl & ->). exists l. split; [done|].
    apply elem_of_unmanaged. rewrite Hupdates, Hsets.
    split; [done|]. split; [apply not_elem_of_nil | done].
Qed.

Lemma nothing_managed_deletes_everything_witness :
  text "delete c d"
    ∈ result_commands
        (run_candidate
           (ModuleParams None None None (text "c") true false)
           (join LF [text "set a b"; text "set c d"]) false []
           [text "show configuration"]).1
  ↔ ∃ l, l ∈ live_lines (join LF [text "set a b"; text "set c d"])
         ∧ text "delete c d" = sub_set_delete l.
Proof.
  refine (nothing_managed_deletes_everything
            (ModuleParams None None None (text "c") true false)
            (join LF [text "set a b"; text "set c d"]) false []
            [text "show configuration"] _ _ (text "delete c d")).
  - vm_compute. repeat constructor.
  - reflexivity.
Defined.

Lemma elem_of_updates_candidate (commands : list str) (config u : str) :
  u ∈ updates_of (diff_config commands config) →
  ∃ c, c ∈ commands ∧ u = normalize c.
Proof.
  intros Hu%elem_of_updates.
  assert (u ∈ map normalize commands) as Hin.
  { destruct Hu as [Hu|[[Hu _]|[Hu _]%elem_of_restored]];
      by apply elem_of_filter_bool in Hu as [? _]. }
  apply list_elem_of_fmap in Hin as (c & -> & Hc). eauto.
Qed.

(** X17. No command that [run] hands to [load_config] holds a single
    quote: neither the updates nor the deletes of unmanaged lines. *)
Theorem no_quote_is_sent (p : module_params) (config : str)
    (changed : bool) (warnings candidate : list str) :
  Forall quote_free
    (result_commands (run_candidate p config changed warnings candidate).1).
Proof.
  rewrite run_candidate_fields. cbn [fst result_commands].
  rewrite run_updates_app. apply Forall_app. split.
  - apply Forall_forall. intros u (c & _ & ->)%elem_of_updates_candidate.
    apply normalize_quote_free.
  - destruct (param_delete_unmanaged p); [|done].
    apply Forall_fmap, Forall_forall. intros l (Hl & _)%elem_of_unmanaged.
    apply sub_set_delete_quote_free.
    by apply (proj1 (Forall_forall _ _) (live_lines_quote_free config)).
Qed.

(** ** delete_unmanaged *)

(** X18. [delete_unmanaged] keeps the updates and appends one command per
    unmanaged line, in the order of the unmanaged list: for a line
    [set path] the command [delete path], and a line that does not start
    with [set ] as it is. *)
Theorem delete_unmanaged_appends (updates unmanaged : list str) :
  delete_unmanaged updates unmanaged
  = updates ++ map sub_set_delete unmanaged
  ∧ length (delete_unmanaged updates unmanaged)
    = length updates + length unmanaged
  ∧ (∀ path, sub_set_delete (text "set " ++ path) = text "delete " ++ path)
  ∧ (∀ line, is_set line = false → sub_set_delete line = line).
Proof.
  rewrite delete_unmanaged_app, length_app, length_map.
  split; [done|]. split; [done|]. split.
  - apply sub_set_delete_set.
  - intros line Hline. unfold sub_set_delete. fold (is_set line).
    by rewrite Hline.
Qed.
